(** * dl-workshop: the Gaussian-mixture likelihood engine, its training loop,
    the pure-Python Gaussian random walk and the linear model's MSE loss.

    Numbers are modelled as Rocq reals (the ideal arithmetic the float32
    computations approximate).  The functions of the [dl_workshop] package that
    the notebooks import ([gaussian_mixture], [stax_models]) are not part of
    the sources at hand; they are modelled from the specification and say so
    in their doc comments.  JAX primitives ([vmap], [lax.scan], [logsumexp],
    [norm.logpdf], [gammaln], [np.mean]) are modelled after their documented
    semantics. *)

From Stdlib Require Import Reals Lra List Permutation String Bool Arith Lia.
From Stdlib Require Import Epsilon Classical_Prop.
Import ListNotations.

Open Scope R_scope.

(** ** Error results: JAX raises on shape errors at trace time. *)

Inductive result (A : Type) : Type :=
| Ok : A -> result A
| Err : string -> result A.
Arguments Ok {A} _.
Arguments Err {A} _.

Definition bind {A B} (m : result A) (k : A -> result B) : result B :=
  match m with
  | Ok a => k a
  | Err e => Err e
  end.

Notation "x <- m ;; k" := (bind m (fun x => k))
  (at level 61, m at next level, right associativity).

(** ** Numeric primitives *)

Definition sum (xs : list R) : R := fold_right Rplus 0 xs.

(** Running maximum, the shift of the numerically stable log-sum-exp. *)
Definition max_list (xs : list R) : R :=
  match xs with
  | [] => 0
  | x :: xs' => fold_left Rmax xs' x
  end.

(** [jax.scipy.special.logsumexp]: [m + log (sum (exp (x_i - m)))] with [m]
    the maximum.  (For an empty vector JAX gives -inf; Rocq's [ln] is total
    with [ln 0 = 0], and no property below is about an empty vector of
    components.) *)
Definition logsumexp (xs : list R) : R :=
  let m := max_list xs in
  m + ln (sum (map (fun x => exp (x - m)) xs)).

(** [jax.scipy.stats.norm.logpdf]:
    [(log (2 pi scale^2) + (x - loc)^2 / scale^2) / -2]. *)
Definition norm_logpdf (x loc scale : R) : R :=
  (ln (2 * PI * scale ^ 2) + (x - loc) ^ 2 / scale ^ 2) / -2.

(** The Gaussian density itself, for stating what [norm_logpdf] is. *)
Definition gaussian_density (x mu sigma : R) : R :=
  / (sigma * sqrt (2 * PI)) * exp (- (x - mu) ^ 2 / (2 * sigma ^ 2)).

(** Euler's Gamma function as the limit of Gauss's product
    [n! n^x / (x (x+1) ... (x+n))]. *)
Definition gamma_partial (x : R) (n : nat) : R :=
  INR (fact n) * Rpower (INR n) x
  / fold_right Rmult 1 (map (fun k => x + INR k) (seq 0 (S n))).

Definition Gamma (x : R) : R :=
  epsilon (inhabits 0) (fun g => Un_cv (gamma_partial x) g).

(** [jax.scipy.special.gammaln]: [log |Gamma x|]. *)
Definition gammaln (x : R) : R := ln (Rabs (Gamma x)).

(** [jax.scipy.stats.dirichlet.logpdf x alpha] at a point of the simplex:
    [sum ((alpha_i - 1) log x_i) - (sum (gammaln alpha_i) - gammaln (sum alpha))]. *)
Definition dirichlet_logpdf (x alpha : list R) : R :=
  sum (map (fun '(a, xi) => (a - 1) * ln xi) (combine alpha x))
  - (sum (map gammaln alpha) - gammaln (sum alpha)).

(** ** The likelihood engine ([dl_workshop.gaussian_mixture]) *)

Fixpoint zip3 {A B C} (xs : list A) (ys : list B) (zs : list C)
  : list (A * B * C) :=
  match xs, ys, zs with
  | x :: xs', y :: ys', z :: zs' => (x, y, z) :: zip3 xs' ys' zs'
  | _, _, _ => []
  end.

Definition vmap_sizes_msg : string :=
  "vmap got inconsistent sizes for array axes to be mapped"%string.

(** [vmap] over three arrays along their leading axis: it refuses arrays of
    different lengths instead of truncating them. *)
Definition vmap_stack3 {A B C} (xs : list A) (ys : list B) (zs : list C)
  : result (list (A * B * C)) :=
  if (List.length xs =? List.length ys)%nat && (List.length ys =? List.length zs)%nat
  then Ok (zip3 xs ys zs)
  else Err vmap_sizes_msg.

(** Modelled from the spec: [normalize_weights], applied in log space:
    [log_weights - logsumexp log_weights], exponentiated. *)
Definition normalize_weights (log_component_weights : list R) : list R :=
  let z := logsumexp log_component_weights in
  map (fun l => exp (l - z)) log_component_weights.

(** Modelled from the spec: [loglike_one_component]
    = [log weight + norm.logpdf datum mean (exp log_scale)]. *)
Definition loglike_one_component (component_weight component_mu
    log_component_scale datum : R) : R :=
  ln component_weight
  + norm_logpdf datum component_mu (exp log_component_scale).

(** The body of [loglike_across_components] once the components are stacked:
    the per-component log-likelihoods combined by log-sum-exp. *)
Definition loglike_stacked (comps : list (R * R * R)) (datum : R) : R :=
  logsumexp (map (fun '(w, mu, s) => loglike_one_component w mu s datum) comps).

(** Modelled from the spec: [loglike_across_components]: normalise the
    weights, [vmap] the one-component log-likelihood across components,
    log-sum-exp. *)
Definition loglike_across_components (log_component_weights component_mus
    log_component_scales : list R) (datum : R) : result R :=
  comps <- vmap_stack3 (normalize_weights log_component_weights)
             component_mus log_component_scales ;;
  Ok (loglike_stacked comps datum).

(** Modelled from the spec: [mixture_loglike]: [loglike_across_components]
    [vmap]ped over the data and summed. *)
Definition mixture_loglike (log_component_weights component_mus
    log_component_scales : list R) (data : list R) : result R :=
  comps <- vmap_stack3 (normalize_weights log_component_weights)
             component_mus log_component_scales ;;
  Ok (sum (map (loglike_stacked comps) data)).

Definition alpha_shape_msg : string :=
  "alpha_prior must have one entry per mixture component"%string.

(** Modelled from the spec: [weights_loglike]: the Dirichlet log-density of
    the normalised weights; a concentration vector of the wrong length is a
    shape error. *)
Definition weights_loglike (log_component_weights alpha_prior : list R)
  : result R :=
  if (List.length alpha_prior =? List.length log_component_weights)%nat
  then Ok (dirichlet_logpdf (normalize_weights log_component_weights) alpha_prior)
  else Err alpha_shape_msg.

Definition params : Type := (list R * list R * list R)%type.

(** The concentration prior fixed inside [loss_mixture_weights]
    ([2 * ones_like], the notebook's value). *)
Definition alpha_prior_fixed (component_mus : list R) : list R :=
  map (fun _ => 2) component_mus.

(** Modelled from the spec and the notebook: [loss_mixture_weights params data]:
    the negative log posterior, with the Dirichlet prior hard-coded in the
    function (the notebook: "The [alpha_prior] is hard-coded"). *)
Definition loss_mixture_weights (p : params) (data : list R) : result R :=
  let '(log_component_weights, component_mus, log_component_scales) := p in
  ll <- mixture_loglike log_component_weights component_mus
          log_component_scales data ;;
  lw <- weights_loglike log_component_weights (alpha_prior_fixed component_mus) ;;
  Ok (- (ll + lw)).

(** The spec's [negative_log_posterior(parameters, data, alpha_prior)], with
    the prior as an explicit argument, for comparison with the code. *)
Definition negative_log_posterior (p : params) (data : list R)
    (alpha_prior : list R) : result R :=
  let '(log_component_weights, component_mus, log_component_scales) := p in
  ll <- mixture_loglike log_component_weights component_mus
          log_component_scales data ;;
  lw <- weights_loglike log_component_weights alpha_prior ;;
  Ok (- (ll + lw)).

(** ** The optimization driver *)

(** [lax.scan f init xs]: thread the carry through [xs] in order, stacking the
    per-step outputs. *)
Fixpoint scan {C X Y} (f : C -> X -> C * Y) (init : C) (xs : list X)
  : C * list Y :=
  match xs with
  | [] => (init, [])
  | x :: xs' =>
      let '(carry, y) := f init x in
      let '(final, ys) := scan f carry xs' in
      (final, y :: ys)
  end.

(** [np.arange n]. *)
Definition arange (n : nat) : list nat := seq 0 n.

(** [vmap] stacks its outputs along a new leading axis; a scan of a [vmap]ped
    step stacks them time-major.  [columns width rows] moves the batch axis to
    the front (rows of length [width]). *)
Fixpoint columns {A} (width : nat) (rows : list (list A)) : list (list A) :=
  match rows with
  | [] => repeat [] width
  | r :: rs => map (fun '(x, col) => x :: col) (combine r (columns width rs))
  end.

Section Driver.

(** The optimizer state (an Adam state in the notebooks) and the elementary
    update [step(i, state)] with the data, gradient and update rule bound in. *)
Variable State : Type.
Variable step : nat -> State -> State.

(** The states visited by applying [step] for the indices [xs] in order. *)
Definition fold_steps (s : State) (xs : list nat) : State :=
  fold_left (fun st i => step i st) xs s.

(** Modelled from the spec: [make_step_scannable]: the scanned function
    advances the state by one [step] and records the new state. *)
Definition make_step_scannable (previous_state : State) (iteration : nat)
  : State * State :=
  let new_state := step iteration previous_state in
  (new_state, new_state).

(** [lax.scan(step_scannable, initial_state, np.arange(num_iterations))]. *)
Definition run (initial_state : State) (num_iterations : nat)
  : State * list State :=
  scan make_step_scannable initial_state (arange num_iterations).

(** The same step applied to a whole batch of states at once: what [vmap]
    makes of [make_step_scannable] (JAX batches the scan's carry). *)
Definition make_step_scannable_batched (previous_states : list State)
    (iteration : nat) : list State * list State :=
  let new_states := map (step iteration) previous_states in
  (new_states, new_states).

(** [vmap(train)(initial_states)] as JAX executes it: one scan over the
    batched carry, the stacked history then unstacked along the batch axis,
    one (final state, history) pair per run. *)
Definition run_many (initial_states : list State) (num_iterations : nat)
  : list (State * list State) :=
  let '(finals, history) :=
    scan make_step_scannable_batched initial_states (arange num_iterations) in
  combine finals (columns (List.length initial_states) history).

End Driver.

(** ** [gaussian_random_walk_python] (src/unnamed/part_000) *)

Section RandomWalk.

(** NumPy's global generator state, and [onp.random.normal(loc=...)] drawing
    from it. *)
Variable Gen : Type.
Variable normal : R -> Gen -> R * Gen.

(** The inner loop: [num_timesteps] draws, each centred on the previous one. *)
Fixpoint walk (prev_draw : R) (num_timesteps : nat) (g : Gen)
  : list R * Gen :=
  match num_timesteps with
  | O => ([], g)
  | S t =>
      let '(draw, g1) := normal prev_draw g in
      let '(rw, g2) := walk draw t g1 in
      (draw :: rw, g2)
  end.

(** The outer loop: [num_realizations] walks, each from [prev_draw = 0]. *)
Fixpoint realizations (num_realizations num_timesteps : nat) (g : Gen)
  : list (list R) * Gen :=
  match num_realizations with
  | O => ([], g)
  | S i =>
      let '(rw, g1) := walk 0 num_timesteps g in
      let '(rws, g2) := realizations i num_timesteps g1 in
      (rw :: rws, g2)
  end.

Definition gaussian_random_walk_python (num_realizations num_timesteps : nat)
    (g : Gen) : list (list R) * Gen :=
  realizations num_realizations num_timesteps g.

(** A trajectory whose every draw was sampled with location the draw before
    it (the first one with location [prev]). *)
Fixpoint chained (prev : R) (rw : list R) : Prop :=
  match rw with
  | [] => True
  | d :: rest => (exists g, d = fst (normal prev g)) /\ chained d rest
  end.

End RandomWalk.

(** ** [mseloss] (src/notebooks/03-stax/01-linear.ipynb) *)

(** [np.mean]: the sum over the count; an empty array gives NaN ([None]). *)
Definition mean (xs : list R) : option R :=
  match xs with
  | [] => None
  | _ => Some (sum xs / INR (List.length xs))
  end.

Section MSE.

Variables Params Input : Type.
(** [apply_fun params x]: the model's output vector for one input row. *)
Variable model : Params -> Input -> list R.

(** [np.power(y_preds - y_true, 2)] for arrays of the same shape: one row,
    then all rows flattened. *)
Definition sq_row (p y : list R) : list R :=
  map (fun '(a, b) => (a - b) ^ 2) (combine p y).

Definition sq_diffs (y_preds y_true : list (list R)) : list R :=
  List.concat (map (fun '(p, y) => sq_row p y) (combine y_preds y_true)).

Definition mseloss (params : Params) (x : list Input) (y_true : list (list R))
  : option R :=
  let y_preds := map (model params) x in
  mean (sq_diffs y_preds y_true).

End MSE.

(** ** The optimizer and the training loops of the notebooks *)

(** [jax.experimental.optimizers.adam(step_size)] with its default
    [b1 = 0.9], [b2 = 0.999], [eps = 1e-8] and a constant step size, for one
    scalar parameter (its [update] acts leaf by leaf, element by element). *)
Definition adam_b1 : R := 9 / 10.
Definition adam_b2 : R := 999 / 1000.
Definition adam_eps : R := / 100000000.

Definition adam_state : Type := (R * R * R)%type.

(** [init(x0)]: [(x0, zeros_like x0, zeros_like x0)]. *)
Definition adam_init (x0 : R) : adam_state := (x0, 0, 0).

(** [update(i, g, state)]: moment averages, bias correction with
    [b ** (i + 1)], and the step [step_size * mhat / (sqrt vhat + eps)]. *)
Definition adam_update (step_size : R) (i : nat) (g : R) (state : adam_state)
  : adam_state :=
  let '(x, m, v) := state in
  let m' := (1 - adam_b1) * g + adam_b1 * m in
  let v' := (1 - adam_b2) * g ^ 2 + adam_b2 * v in
  let mhat := m' / (1 - adam_b1 ^ (i + 1)) in
  let vhat := v' / (1 - adam_b2 ^ (i + 1)) in
  (x - step_size * mhat / (sqrt vhat + adam_eps), m', v').

(** [get_params(state)]: the first component. *)
Definition adam_get_params (state : adam_state) : R :=
  let '(x, _, _) := state in x.

Section Training.

Variables (St Prm Grd : Type).
Variable get_params : St -> Prm.
(** The gradient of the loss with the model and the data bound in
    ([dmseloss(params, apply_fun, X, y_true)]). *)
Variable dloss : Prm -> Grd.
Variable update : nat -> Grd -> St -> St.

(** The explicit loop of the linear notebook:
    [for i in range(n): params = get_params(state); g = dloss(params);
    state = update(i, g, state)]. *)
Definition python_training_loop (state : St) (n : nat) : St :=
  fold_left (fun st i => let prm := get_params st in
                         let g := dloss prm in
                         update i g st) (seq 0 n) state.

(** Modelled from the notebook's description of [step] ("we unpack params
    from a JAX optimizer state, obtain gradients, and then update the state
    using the gradients"), with the loss and data bound in as in
    [step_partial]. *)
Definition training_step (i : nat) (state : St) : St :=
  update i (dloss (get_params state)) state.

End Training.

(** ** The linear model of the stax notebook *)

Definition dot (x w : list R) : R :=
  sum (map (fun '(xi, wi) => xi * wi) (combine x w)).

(** [stax.Dense] [apply_fun((W, b), inputs) = jnp.dot(inputs, W) + b], with
    [W] given by its rows (one per input coordinate) and [b] of length the
    output dimension. *)
Definition dense_apply (p : list (list R) * list R) (inputs : list R) : list R :=
  let '(W, b) := p in
  map (fun '(j, bj) =>
         sum (map (fun '(xi, row) => xi * nth j row 0) (combine inputs W)) + bj)
      (combine (seq 0 (List.length b)) b).

(** [y_true = np.dot(X, w) + c] reshaped to [(-1, 1)]. *)
Definition linear_targets (X : list (list R)) (w : list R) (c : R)
  : list (list R) :=
  map (fun x => [dot x w + c]) X.

(** * Properties *)

(** ** Arithmetic helpers *)

Lemma sum_app (xs ys : list R) : sum (xs ++ ys) = sum xs + sum ys.
Proof. induction xs as [| x xs IH]; simpl; [lra | rewrite IH; lra]. Qed.

Lemma sum_permutation (xs ys : list R) :
  Permutation xs ys -> sum xs = sum ys.
Proof.
  induction 1; simpl; try lra.
Qed.

Lemma Rmax_shift (a b c : R) : Rmax (a + c) (b + c) = Rmax a b + c.
Proof. unfold Rmax; destruct (Rle_dec a b), (Rle_dec (a + c) (b + c)); lra. Qed.

Lemma fold_left_Rmax_shift (xs : list R) (m c : R) :
  fold_left Rmax (map (fun l => l + c) xs) (m + c) = fold_left Rmax xs m + c.
Proof.
  revert m; induction xs as [| x xs IH]; intros m; simpl; [reflexivity |].
  now rewrite Rmax_shift, IH.
Qed.

Lemma max_list_shift (xs : list R) (c : R) :
  xs <> [] -> max_list (map (fun l => l + c) xs) = max_list xs + c.
Proof.
  destruct xs as [| x xs]; intros Hne; [congruence |].
  apply fold_left_Rmax_shift.
Qed.

(** Log-sum-exp commutes with adding a constant to every entry. *)
Lemma logsumexp_shift (xs : list R) (c : R) :
  xs <> [] -> logsumexp (map (fun l => l + c) xs) = logsumexp xs + c.
Proof.
  intros Hne; unfold logsumexp; rewrite max_list_shift by exact Hne.
  rewrite map_map.
  replace (map (fun x => exp (x + c - (max_list xs + c))) xs)
    with (map (fun x => exp (x - max_list xs)) xs).
  - lra.
  - apply map_ext; intros a; f_equal; ring.
Qed.

Lemma logsumexp_single (a : R) : logsumexp [a] = a.
Proof.
  unfold logsumexp, max_list; simpl.
  replace (a - a) with 0 by ring.
  rewrite exp_0, Rplus_0_r, ln_1; ring.
Qed.

Lemma normalize_weights_shift (lw : list R) (c : R) :
  normalize_weights (map (fun l => l + c) lw) = normalize_weights lw.
Proof.
  destruct lw as [| l lw]; [reflexivity |].
  unfold normalize_weights.
  rewrite logsumexp_shift by discriminate.
  rewrite map_map; apply map_ext; intros a; f_equal; ring.
Qed.

Lemma length_normalize_weights (lw : list R) :
  List.length (normalize_weights lw) = List.length lw.
Proof. unfold normalize_weights; apply length_map. Qed.

Lemma ln_sqrt_half (a : R) : 0 < a -> ln (sqrt a) = ln a / 2.
Proof.
  intros Ha.
  assert (Hs : 0 < sqrt a) by (apply sqrt_lt_R0; exact Ha).
  rewrite <- (sqrt_sqrt a) at 2 by lra.
  rewrite ln_mult by exact Hs; field.
Qed.

Lemma ln_gaussian_density (x mu sigma : R) :
  0 < sigma -> ln (gaussian_density x mu sigma) = norm_logpdf x mu sigma.
Proof.
  intros Hs; unfold gaussian_density, norm_logpdf.
  assert (H2pi : 0 < 2 * PI) by (generalize PI_RGT_0; lra).
  assert (Hsq : 0 < sqrt (2 * PI)) by (apply sqrt_lt_R0; lra).
  assert (Hprod : 0 < sigma * sqrt (2 * PI)) by (apply Rmult_lt_0_compat; auto).
  rewrite ln_mult by (auto using Rinv_0_lt_compat, exp_pos).
  rewrite ln_exp, (ln_Rinv _ Hprod), (ln_mult _ _ Hs Hsq), (ln_sqrt_half _ H2pi).
  replace (sigma ^ 2) with (sigma * sigma) by ring.
  assert (Hss : 0 < sigma * sigma) by (apply Rmult_lt_0_compat; exact Hs).
  rewrite (ln_mult _ _ H2pi Hss), (ln_mult _ _ Hs Hs).
  field; lra.
Qed.

Lemma vmap_stack3_mismatch {A B C} (xs : list A) (ys : list B) (zs : list C) :
  (List.length xs <> List.length ys \/ List.length ys <> List.length zs) ->
  vmap_stack3 xs ys zs = Err vmap_sizes_msg.
Proof.
  intros H; unfold vmap_stack3.
  destruct (Nat.eqb_spec (List.length xs) (List.length ys)),
           (Nat.eqb_spec (List.length ys) (List.length zs)); simpl;
    [ destruct H; contradiction | reflexivity | reflexivity | reflexivity ].
Qed.

Lemma vmap_stack3_ok {A B C} (xs : list A) (ys : list B) (zs : list C) :
  List.length xs = List.length ys -> List.length ys = List.length zs ->
  vmap_stack3 xs ys zs = Ok (zip3 xs ys zs).
Proof.
  intros H1 H2; unfold vmap_stack3.
  now rewrite H1, H2, Nat.eqb_refl.
Qed.

(** ** C4: one datum under one component *)

(** C4: [loglike_one_component w m s x] is [log w] plus the log of the
    Gaussian density of [x] with mean [m] and standard deviation [exp s]; for
    weight 1, mean 0, log-scale 0 at datum 0 it is the standard normal
    log-density at 0, that is [- log (2 pi) / 2]. *)
Theorem loglike_one_component_gaussian (w m s x : R) :
  loglike_one_component w m s x = ln w + ln (gaussian_density x m (exp s)) /\
  loglike_one_component 1 0 0 0 = ln (gaussian_density 0 0 1) /\
  loglike_one_component 1 0 0 0 = - ln (2 * PI) / 2.
Proof.
  assert (H2pi : 0 < 2 * PI) by (generalize PI_RGT_0; lra).
  split; [| split].
  - unfold loglike_one_component.
    now rewrite ln_gaussian_density by apply exp_pos.
  - unfold loglike_one_component; rewrite exp_0, ln_1, Rplus_0_l.
    symmetry; apply ln_gaussian_density; lra.
  - unfold loglike_one_component, norm_logpdf; rewrite exp_0, ln_1.
    replace (2 * PI * 1 ^ 2) with (2 * PI) by ring.
    field.
Qed.

(** ** C5: a one-component mixture *)

(** C5: with one component, [loglike_across_components] is the
    one-component log-likelihood at normalised weight 1, whatever the raw
    log-weight: the normalisation gives weight 1 and the log-sum-exp of a
    single term is that term. *)
Theorem loglike_across_one_component (lw mu s x : R) :
  loglike_across_components [lw] [mu] [s] x
  = Ok (loglike_one_component 1 mu s x).
Proof.
  unfold loglike_across_components, normalize_weights.
  rewrite logsumexp_single; cbn [map].
  rewrite Rminus_diag, exp_0.
  rewrite vmap_stack3_ok by reflexivity; cbn [bind zip3].
  unfold loglike_stacked; cbn [map].
  now rewrite logsumexp_single.
Qed.

(** ** C6: the order of the observations does not matter *)

(** C6: [mixture_loglike] takes the same value on any permutation of the
    data (the same sum, or the same shape error). *)
Theorem mixture_loglike_permutation (lw ms ss data data' : list R) :
  Permutation data data' ->
  mixture_loglike lw ms ss data = mixture_loglike lw ms ss data'.
Proof.
  intros Hp; unfold mixture_loglike.
  destruct (vmap_stack3 (normalize_weights lw) ms ss) as [comps | e];
    simpl; [| reflexivity].
  f_equal; apply sum_permutation, Permutation_map, Hp.
Qed.

(** ** C7: the weight prior ignores a common shift of the log-weights *)

(** C7: adding one constant [c] to every log-weight leaves [weights_loglike]
    unchanged, for any concentration vector. *)
Theorem weights_loglike_shift_invariant (lw alpha_prior : list R) (c : R) :
  weights_loglike (map (fun l => l + c) lw) alpha_prior
  = weights_loglike lw alpha_prior.
Proof.
  unfold weights_loglike.
  now rewrite length_map, normalize_weights_shift.
Qed.

(** ** C8: shape mismatches fail fast *)

(** C8: parameter vectors of unequal lengths make every engine operation
    that takes them fail with the [vmap] size error (nothing is truncated);
    a concentration vector whose length is not the number of components
    makes [weights_loglike] fail with its shape error, and the negative log
    posterior fail with one of the two errors. *)
Theorem shape_mismatch_fails_fast (lw ms ss alpha_prior data : list R) (x : R) :
  ((List.length lw <> List.length ms \/ List.length ms <> List.length ss) ->
     loglike_across_components lw ms ss x = Err vmap_sizes_msg /\
     mixture_loglike lw ms ss data = Err vmap_sizes_msg /\
     loss_mixture_weights (lw, ms, ss) data = Err vmap_sizes_msg /\
     negative_log_posterior (lw, ms, ss) data alpha_prior = Err vmap_sizes_msg) /\
  (List.length alpha_prior <> List.length lw ->
     weights_loglike lw alpha_prior = Err alpha_shape_msg /\
     (negative_log_posterior (lw, ms, ss) data alpha_prior = Err vmap_sizes_msg \/
      negative_log_posterior (lw, ms, ss) data alpha_prior = Err alpha_shape_msg)).
Proof.
  split.
  - intros H.
    assert (Hs : vmap_stack3 (normalize_weights lw) ms ss = Err vmap_sizes_msg)
      by (apply vmap_stack3_mismatch; now rewrite length_normalize_weights).
    unfold loss_mixture_weights, negative_log_posterior,
      loglike_across_components, mixture_loglike.
    rewrite Hs; cbn [bind]; repeat split.
  - intros H.
    assert (Hw : weights_loglike lw alpha_prior = Err alpha_shape_msg).
    { unfold weights_loglike.
      destruct (Nat.eqb_spec (List.length alpha_prior) (List.length lw));
        [contradiction | reflexivity]. }
    split; [exact Hw |].
    unfold negative_log_posterior, mixture_loglike.
    destruct (vmap_stack3 (normalize_weights lw) ms ss) as [comps | e] eqn:Hs.
    + right; cbn [bind]; now rewrite Hw.
    + left; cbn [bind].
      unfold vmap_stack3 in Hs.
      destruct (_ && _); congruence.
Qed.

(** ** C1: the loss and the concentration prior *)

(** C1 (as the code has it): [loss_mixture_weights] takes only the
    parameters and the data; it is the negative log posterior at the
    concentration prior fixed inside it, which has one entry per component. *)
Theorem loss_mixture_weights_fixed_prior (lw ms ss data : list R) :
  loss_mixture_weights (lw, ms, ss) data
  = negative_log_posterior (lw, ms, ss) data (alpha_prior_fixed ms) /\
  List.length (alpha_prior_fixed ms) = List.length ms.
Proof.
  split; [reflexivity |].
  apply length_map.
Qed.

(** C1 (counterexample): the claim has the loss take the concentration prior
    as an argument and equal the negative log posterior at it; but at the
    log-weights [[0; 1]] the negative log posteriors at [[1; 2]] and [[2; 1]]
    differ by 1, and [loss_mixture_weights], which has no such argument, misses
    one of them. *)
Lemma loss_mixture_weights_ignores_alpha_prior :
  exists alpha_prior : list R,
    loss_mixture_weights ([0; 1], [0; 0], [0; 0]) []
    <> negative_log_posterior ([0; 1], [0; 0], [0; 0]) [] alpha_prior.
Proof.
  assert (Hd : negative_log_posterior ([0; 1], [0; 0], [0; 0]) [] [1; 2]
               <> negative_log_posterior ([0; 1], [0; 0], [0; 0]) [] [2; 1]).
  { unfold negative_log_posterior, mixture_loglike, weights_loglike.
    rewrite vmap_stack3_ok by reflexivity.
    cbn [bind List.length Nat.eqb].
    intros H; injection H as H.
    unfold dirichlet_logpdf, normalize_weights, sum in H.
    cbn [map combine fold_right] in H.
    rewrite !ln_exp in H.
    replace (2 + (1 + 0)) with (1 + (2 + 0)) in H by ring.
    lra. }
  destruct (classic (loss_mixture_weights ([0; 1], [0; 0], [0; 0]) []
                     = negative_log_posterior ([0; 1], [0; 0], [0; 0]) [] [1; 2]))
    as [Heq | Hne].
  - exists [2; 1]; rewrite Heq; exact Hd.
  - exists [1; 2]; exact Hne.
Qed.

(** ** The training loop *)

Section DriverProofs.

Variable State : Type.
Variable step : nat -> State -> State.

Lemma scan_cons {C X Y} (f : C -> X -> C * Y) (init : C) (x : X) (xs : list X) :
  scan f init (x :: xs)
  = (fst (scan f (fst (f init x)) xs), snd (f init x) :: snd (scan f (fst (f init x)) xs)).
Proof.
  simpl; destruct (f init x) as [c y]; simpl.
  now destruct (scan f c xs).
Qed.

Lemma last_nonempty_default {A} (b d1 d2 : A) (l : list A) :
  last (b :: l) d1 = last (b :: l) d2.
Proof.
  revert b; induction l as [| c l IH]; intros b; [reflexivity |].
  change (last (c :: l) d1 = last (c :: l) d2); apply IH.
Qed.

Lemma last_cons_default {A} (a d : A) (l : list A) : last (a :: l) d = last l a.
Proof.
  destruct l as [| b l]; [reflexivity |].
  change (last (b :: l) d = last (b :: l) a); apply last_nonempty_default.
Qed.

Lemma scan_single_final (s : State) (xs : list nat) :
  fst (scan (make_step_scannable State step) s xs) = fold_steps State step s xs.
Proof.
  revert s; induction xs as [| x xs IH]; intros s; [reflexivity |].
  rewrite scan_cons; simpl; apply IH.
Qed.

Lemma scan_single_length (s : State) (xs : list nat) :
  List.length (snd (scan (make_step_scannable State step) s xs)) = List.length xs.
Proof.
  revert s; induction xs as [| x xs IH]; intros s; [reflexivity |].
  rewrite scan_cons; simpl; now rewrite IH.
Qed.

Lemma scan_single_last (s : State) (xs : list nat) :
  last (snd (scan (make_step_scannable State step) s xs)) s
  = fst (scan (make_step_scannable State step) s xs).
Proof.
  revert s; induction xs as [| x xs IH]; intros s; [reflexivity |].
  rewrite scan_cons; cbn [fst snd make_step_scannable].
  rewrite last_cons_default; apply IH.
Qed.

Lemma scan_single_nth (s : State) (xs : list nat) (k : nat) :
  (k < List.length xs)%nat ->
  nth k (snd (scan (make_step_scannable State step) s xs)) s
  = fold_steps State step s (firstn (S k) xs).
Proof.
  revert s k; induction xs as [| x xs IH]; intros s k Hk; simpl in Hk; [lia |].
  rewrite scan_cons; simpl.
  destruct k as [| k]; [reflexivity |].
  rewrite (nth_indep _ _ (step x s)) by (rewrite scan_single_length; lia).
  rewrite IH by lia; reflexivity.
Qed.

Lemma firstn_arange (k n : nat) : (k <= n)%nat -> firstn k (arange n) = arange k.
Proof.
  unfold arange; intros Hk.
  replace n with (k + (n - k))%nat by lia.
  rewrite seq_app, firstn_app, length_seq, Nat.sub_diag, firstn_O, app_nil_r.
  apply firstn_all2; rewrite length_seq; lia.
Qed.

Lemma scan_batched_final (states : list State) (xs : list nat) :
  fst (scan (make_step_scannable_batched State step) states xs)
  = map (fun s => fst (scan (make_step_scannable State step) s xs)) states.
Proof.
  revert states; induction xs as [| x xs IH]; intros states.
  - simpl; symmetry; apply map_id.
  - rewrite scan_cons; cbn [fst snd make_step_scannable_batched].
    rewrite IH, map_map.
    apply map_ext; intros s; now rewrite (scan_cons _ s).
Qed.

Lemma repeat_length_map {A B} (b : B) (l : list A) :
  repeat b (List.length l) = map (fun _ => b) l.
Proof. induction l as [| a l IH]; simpl; [reflexivity | now rewrite IH]. Qed.

Lemma combine_map_self {A B} (h : A -> B) (l : list A) :
  combine l (map h l) = map (fun a => (a, h a)) l.
Proof. induction l as [| a l IH]; simpl; [reflexivity | now rewrite IH]. Qed.

Lemma combine_map_map {A B C} (f : A -> B) (g : A -> C) (l : list A) :
  combine (map f l) (map g l) = map (fun a => (f a, g a)) l.
Proof. induction l as [| a l IH]; simpl; [reflexivity | now rewrite IH]. Qed.

Lemma scan_batched_history (states : list State) (xs : list nat) :
  columns (List.length states)
    (snd (scan (make_step_scannable_batched State step) states xs))
  = map (fun s => snd (scan (make_step_scannable State step) s xs)) states.
Proof.
  revert states; induction xs as [| x xs IH]; intros states.
  - simpl; apply repeat_length_map.
  - rewrite scan_cons; cbn [fst snd make_step_scannable_batched columns].
    rewrite <- (length_map (step x) states), IH, combine_map_self, !map_map.
    apply map_ext; intros s; now rewrite (scan_cons _ s).
Qed.

End DriverProofs.

(** ** C2: [run] folds the step and records every state *)

(** C2: [run initial_state n] ends in the state obtained by folding [step]
    over the indices [0 .. n-1]; its history has exactly [n] entries, its
    last entry (the initial state when [n = 0]) is the final state, and its
    [k]-th entry is the state after the steps [0 .. k]. *)
Theorem run_history (State : Type) (step : nat -> State -> State)
    (initial_state : State) (n : nat) :
  fst (run State step initial_state n) = fold_steps State step initial_state (arange n) /\
  List.length (snd (run State step initial_state n)) = n /\
  last (snd (run State step initial_state n)) initial_state
    = fst (run State step initial_state n) /\
  (forall k, (k < n)%nat ->
     nth k (snd (run State step initial_state n)) initial_state
     = fold_steps State step initial_state (arange (S k))).
Proof.
  unfold run; split; [| split; [| split]].
  - apply scan_single_final.
  - rewrite scan_single_length; apply length_seq.
  - apply scan_single_last.
  - intros k Hk.
    rewrite scan_single_nth by (unfold arange; rewrite length_seq; exact Hk).
    now rewrite firstn_arange by lia.
Qed.

(** ** C3: the batched driver agrees with independent runs *)

(** C3: running a batch of initial states through the batched loop gives,
    for each initial state in order, exactly the final state and the history
    of an independent [run] from that state. *)
Theorem run_many_independent (State : Type) (step : nat -> State -> State)
    (initial_states : list State) (n : nat) :
  run_many State step initial_states n
  = map (fun s => run State step s n) initial_states.
Proof.
  unfold run_many, run.
  rewrite (surjective_pairing
             (scan (make_step_scannable_batched State step) initial_states (arange n))).
  cbv beta iota.
  rewrite scan_batched_final, scan_batched_history, combine_map_map.
  apply map_ext; intros s; symmetry; apply surjective_pairing.
Qed.

(** ** The pure-Python random walk *)

Section RandomWalkProofs.

Variable Gen : Type.
Variable normal : R -> Gen -> R * Gen.

Lemma walk_length (prev : R) (t : nat) (g : Gen) :
  List.length (fst (walk Gen normal prev t g)) = t.
Proof.
  revert prev g; induction t as [| t IH]; intros prev g; [reflexivity |].
  simpl; destruct (normal prev g) as [d g1].
  specialize (IH d g1); destruct (walk Gen normal d t g1) as [rw g2].
  simpl in *; now rewrite IH.
Qed.

Lemma walk_head (prev : R) (t : nat) (g : Gen) :
  hd_error (fst (walk Gen normal prev (S t) g)) = Some (fst (normal prev g)).
Proof.
  simpl; destruct (normal prev g) as [d g1].
  now destruct (walk Gen normal d t g1).
Qed.

Lemma realizations_shape (n t : nat) (g : Gen) :
  List.length (fst (realizations Gen normal n t g)) = n /\
  Forall (fun rw => exists g0, rw = fst (walk Gen normal 0 t g0))
    (fst (realizations Gen normal n t g)).
Proof.
  revert g; induction n as [| n IH]; intros g; [split; [reflexivity | constructor] |].
  simpl.
  destruct (walk Gen normal 0 t g) as [rw g1] eqn:Hw.
  specialize (IH g1); destruct (realizations Gen normal n t g1) as [rws g2].
  simpl in *; destruct IH as [Hl Hf].
  split; [now rewrite Hl |].
  constructor; [exists g; now rewrite Hw | exact Hf].
Qed.

End RandomWalkProofs.

(** C9: [gaussian_random_walk_python n T] returns [n] trajectories of [T]
    draws each; each trajectory is a walk from [prev_draw = 0], so its first
    draw (if any) is drawn with location 0; with [T = 0] every trajectory is
    empty. *)
Theorem gaussian_random_walk_python_shape (Gen : Type)
    (normal : R -> Gen -> R * Gen) (num_realizations num_timesteps : nat) (g : Gen) :
  List.length (fst (gaussian_random_walk_python Gen normal
                      num_realizations num_timesteps g)) = num_realizations /\
  Forall (fun rw =>
            List.length rw = num_timesteps /\
            exists g0, rw = fst (walk Gen normal 0 num_timesteps g0) /\
                       (rw = [] \/ hd_error rw = Some (fst (normal 0 g0))))
    (fst (gaussian_random_walk_python Gen normal num_realizations num_timesteps g)) /\
  fst (gaussian_random_walk_python Gen normal num_realizations 0 g)
  = repeat [] num_realizations.
Proof.
  unfold gaussian_random_walk_python.
  destruct (realizations_shape Gen normal num_realizations num_timesteps g) as [Hl Hf].
  split; [exact Hl | split].
  - eapply Forall_impl; [| exact Hf].
    intros rw [g0 Hrw]; subst rw.
    split; [apply walk_length |].
    exists g0; split; [reflexivity |].
    destruct num_timesteps as [| t]; [left; reflexivity | right; apply walk_head].
  - destruct (realizations_shape Gen normal num_realizations 0 g) as [Hl0 Hf0].
    rewrite <- Hl0 at 2; clear Hl0 Hl Hf.
    induction Hf0 as [| rw rws [g0 Hrw] _ IH]; [reflexivity |].
    simpl; rewrite Hrw; f_equal; exact IH.
Qed.

(** ** The linear model's MSE loss *)

Lemma sum_nonneg (xs : list R) : Forall (Rle 0) xs -> 0 <= sum xs.
Proof. induction 1; simpl; lra. Qed.

Lemma sum_nonneg_zero (xs : list R) :
  Forall (Rle 0) xs -> (sum xs = 0 <-> Forall (fun v => v = 0) xs).
Proof.
  induction 1 as [| v xs Hv Hxs IH]; simpl; [split; auto |].
  pose proof (sum_nonneg xs Hxs).
  split.
  - intros H0; constructor; [lra | apply IH; lra].
  - intros H0; inversion H0; subst; rewrite (proj2 IH); auto; lra.
Qed.

Lemma sq_diffs_cons (p y : list R) (ps ys : list (list R)) :
  sq_diffs (p :: ps) (y :: ys) = sq_row p y ++ sq_diffs ps ys.
Proof. reflexivity. Qed.

Lemma sq_row_nonneg (p y : list R) : Forall (Rle 0) (sq_row p y).
Proof.
  revert y; induction p as [| a p IH]; intros [| b y]; simpl; constructor.
  - apply pow2_ge_0.
  - apply IH.
Qed.

Lemma sq_row_zero (p y : list R) :
  List.length p = List.length y ->
  (Forall (fun v => v = 0) (sq_row p y) <-> p = y).
Proof.
  revert y; induction p as [| a p IH]; intros [| b y] Hl; simpl in Hl;
    try discriminate; [split; auto |].
  simpl; split.
  - intros H; inversion H as [| ? ? Hab Hrest]; subst.
    assert (a - b = 0) by (apply Rsqr_0_uniq; unfold Rsqr; rewrite <- Hab; ring).
    f_equal; [lra | apply IH; auto].
  - intros H; injection H as -> ->.
    constructor; [ring | apply IH; auto].
Qed.

Lemma sq_diffs_nonneg (ps ys : list (list R)) : Forall (Rle 0) (sq_diffs ps ys).
Proof.
  revert ys; induction ps as [| p ps IH]; intros [| y ys]; try constructor.
  rewrite sq_diffs_cons; apply Forall_app; split; [apply sq_row_nonneg | apply IH].
Qed.

Lemma sq_diffs_zero (ps ys : list (list R)) :
  Forall2 (fun p y => List.length p = List.length y) ps ys ->
  (Forall (fun v => v = 0) (sq_diffs ps ys) <-> ps = ys).
Proof.
  induction 1 as [| p y ps ys Hl _ IH]; [split; auto |].
  rewrite sq_diffs_cons, Forall_app, sq_row_zero, IH by exact Hl.
  split; [intros [-> ->]; reflexivity | intros H; injection H as -> ->; auto].
Qed.

Lemma length_sq_diffs (ps ys : list (list R)) :
  Forall2 (fun p y => List.length p = List.length y) ps ys ->
  List.length (sq_diffs ps ys) = List.length (List.concat ys).
Proof.
  induction 1 as [| p y ps ys Hl _ IH]; [reflexivity |].
  rewrite sq_diffs_cons; simpl; rewrite !length_app, IH.
  unfold sq_row; rewrite length_map, length_combine, Hl, Nat.min_id.
  reflexivity.
Qed.

(** C10 (counterexample): with no input rows [mseloss] takes the mean of an
    empty array, which is NaN: no nonnegative scalar comes back. *)
Lemma mseloss_empty_batch_nan :
  mseloss unit (list R) (fun _ row => row) tt [] [] = None.
Proof. reflexivity. Qed.

(** C10 (as the code has it): when the predictions and targets have the same
    shape and there is at least one target entry, [mseloss] is the mean of
    the squared differences, it is nonnegative, and it is 0 exactly when every
    prediction equals its target. *)
Theorem mseloss_mean_squared_error (Params Input : Type)
    (model : Params -> Input -> list R) (params : Params)
    (x : list Input) (y_true : list (list R)) :
  Forall2 (fun p y => List.length p = List.length y) (map (model params) x) y_true ->
  (0 < List.length (List.concat y_true))%nat ->
  exists m,
    mseloss Params Input model params x y_true = Some m /\
    m = sum (sq_diffs (map (model params) x) y_true)
        / INR (List.length (List.concat y_true)) /\
    0 <= m /\
    (m = 0 <-> map (model params) x = y_true).
Proof.
  intros Hshape Hpos.
  pose proof (length_sq_diffs _ _ Hshape) as Hlen.
  pose proof (sq_diffs_nonneg (map (model params) x) y_true) as Hnn.
  pose proof (sum_nonneg _ Hnn) as Hsum.
  assert (Hc : 0 < INR (List.length (List.concat y_true))) by (apply lt_0_INR; exact Hpos).
  exists (sum (sq_diffs (map (model params) x) y_true)
          / INR (List.length (List.concat y_true))).
  split; [| split; [reflexivity | split]].
  - unfold mseloss, mean.
    destruct (sq_diffs (map (model params) x) y_true) as [| v vs] eqn:Hd.
    + simpl in Hlen; lia.
    + now rewrite Hlen.
  - apply Rmult_le_pos; [exact Hsum | left; apply Rinv_0_lt_compat; exact Hc].
  - rewrite <- (sq_diffs_zero _ _ Hshape), <- (sum_nonneg_zero _ Hnn).
    split; intros H.
    + apply (Rmult_eq_reg_r (/ INR (List.length (List.concat y_true))));
        [| apply Rinv_neq_0_compat; lra].
      unfold Rdiv in H; rewrite H; ring.
    + rewrite H; unfold Rdiv; ring.
Qed.

(** ** Witnesses: the theorems with hypotheses at concrete inputs *)

Lemma mixture_loglike_permutation_witness :
  Permutation [1; 2] [2; 1] /\
  mixture_loglike [0] [0] [0] [1; 2] = mixture_loglike [0] [0] [0] [2; 1].
Proof.
  split; [apply perm_swap |].
  apply (mixture_loglike_permutation [0] [0] [0] [1; 2] [2; 1]).
  apply perm_swap.
Defined.

Lemma mseloss_mean_squared_error_witness :
  exists m,
    mseloss unit (list R) (fun _ row => row) tt [[1]; [3]] [[1]; [2]] = Some m /\
    m = sum (sq_diffs [[1]; [3]] [[1]; [2]]) / INR (List.length (List.concat [[1]; [2]])) /\
    0 <= m /\ (m = 0 <-> [[1]; [3]] = [[1]; [2]]).
Proof.
  apply (mseloss_mean_squared_error unit (list R) (fun _ row => row) tt
           [[1]; [3]] [[1]; [2]]).
  - repeat constructor.
  - simpl; lia.
Defined.

Lemma run_history_witness :
  nth 1 (snd (run nat (fun i s => (s + i)%nat) 0%nat 3)) 0%nat
  = fold_steps nat (fun i s => (s + i)%nat) 0%nat (arange 2).
Proof.
  apply (proj2 (proj2 (proj2 (run_history nat (fun i s => (s + i)%nat) 0%nat 3)))).
  lia.
Defined.

Lemma shape_mismatch_fails_fast_witness :
  loglike_across_components [0; 0] [0] [0] 1 = Err vmap_sizes_msg /\
  weights_loglike [0; 0] [2] = Err alpha_shape_msg.
Proof.
  split.
  - apply (proj1 (shape_mismatch_fails_fast [0; 0] [0] [0] [2] [] 1)).
    left; discriminate.
  - apply (proj2 (shape_mismatch_fails_fast [0; 0] [0] [0] [2] [] 1)).
    discriminate.
Defined.

(** * Further properties of the code *)

(** ** Log-sum-exp and the normalised weights *)

Lemma fold_left_Rmax_ge_init (l : list R) (m : R) : m <= fold_left Rmax l m.
Proof.
  revert m; induction l as [| a l IH]; intros m; simpl; [lra |].
  eapply Rle_trans; [apply Rmax_l | apply IH].
Qed.

Lemma fold_left_Rmax_ge (l : list R) (m y : R) : In y l -> y <= fold_left Rmax l m.
Proof.
  revert m; induction l as [| a l IH]; intros m; simpl; [contradiction |].
  intros [-> | H].
  - eapply Rle_trans; [apply Rmax_r | apply fold_left_Rmax_ge_init].
  - apply IH, H.
Qed.

Lemma fold_left_Rmax_in (l : list R) (m : R) :
  fold_left Rmax l m = m \/ In (fold_left Rmax l m) l.
Proof.
  revert m; induction l as [| a l IH]; intros m; simpl; [left; reflexivity |].
  destruct (IH (Rmax m a)) as [H | H].
  - rewrite H; unfold Rmax; destruct (Rle_dec m a);
      [right; left; reflexivity | left; reflexivity].
  - right; right; exact H.
Qed.

Lemma max_list_ge (xs : list R) (y : R) : In y xs -> y <= max_list xs.
Proof.
  destruct xs as [| x xs]; simpl; [contradiction |].
  intros [-> | H]; [apply fold_left_Rmax_ge_init | apply fold_left_Rmax_ge, H].
Qed.

Lemma max_list_in (xs : list R) : xs <> [] -> In (max_list xs) xs.
Proof.
  destruct xs as [| x xs]; intros Hne; [congruence |]; simpl.
  destruct (fold_left_Rmax_in xs x) as [H | H]; rewrite ?H; [left | right]; auto.
Qed.

Lemma sum_map_ge_term {A} (f : A -> R) (l : list A) (y : A) :
  (forall a, 0 <= f a) -> In y l -> f y <= sum (map f l).
Proof.
  intros Hpos; induction l as [| a l IH]; simpl; [contradiction |].
  pose proof (sum_nonneg (map f l)) as Hs.
  assert (Hf : Forall (Rle 0) (map f l)) by (apply Forall_map, Forall_forall; auto).
  specialize (Hs Hf); specialize (Hpos a).
  intros [-> | H]; [lra | specialize (IH H); lra].
Qed.

Lemma sum_map_le_count {A} (f : A -> R) (l : list A) :
  (forall a, In a l -> f a <= 1) -> sum (map f l) <= INR (List.length l).
Proof.
  induction l as [| a l IH]; intros H; [simpl; lra |].
  change (sum (map f (a :: l))) with (f a + sum (map f l)).
  change (List.length (a :: l)) with (S (List.length l)); rewrite S_INR.
  assert (f a <= 1) by (apply H; left; reflexivity).
  assert (sum (map f l) <= INR (List.length l)) by (apply IH; intros b Hb; apply H; right; exact Hb).
  lra.
Qed.


Lemma ln_le_mono (x y : R) : 0 < x -> x <= y -> ln x <= ln y.
Proof.
  intros Hx [Hlt | ->]; [left; apply ln_increasing; assumption | right; reflexivity].
Qed.

(** The sum inside [logsumexp] is at least 1 (the maximum's own term). *)
Lemma logsumexp_sum_ge_1 (xs : list R) :
  xs <> [] -> 1 <= sum (map (fun x => exp (x - max_list xs)) xs).
Proof.
  intros Hne.
  assert (H1 : exp (max_list xs - max_list xs) = 1)
    by (rewrite Rminus_diag; apply exp_0).
  rewrite <- H1.
  apply (sum_map_ge_term (fun x => exp (x - max_list xs)));
    [intros; left; apply exp_pos | apply max_list_in, Hne].
Qed.

Lemma logsumexp_ge (xs : list R) (y : R) : In y xs -> y <= logsumexp xs.
Proof.
  intros Hy; unfold logsumexp.
  assert (Hne : xs <> []) by (intros ->; contradiction).
  pose proof (logsumexp_sum_ge_1 xs Hne) as H1.
  assert (Hle : exp (y - max_list xs) <= sum (map (fun x => exp (x - max_list xs)) xs))
    by (apply (sum_map_ge_term (fun x => exp (x - max_list xs))); [intros; left; apply exp_pos | exact Hy]).
  assert (Hln : ln (exp (y - max_list xs)) <= ln (sum (map (fun x => exp (x - max_list xs)) xs)))
    by (apply ln_le_mono; [apply exp_pos | exact Hle]).
  rewrite ln_exp in Hln; lra.
Qed.

Lemma logsumexp_le (xs : list R) :
  xs <> [] -> logsumexp xs <= max_list xs + ln (INR (List.length xs)).
Proof.
  intros Hne; unfold logsumexp.
  apply Rplus_le_compat_l, ln_le_mono; [pose proof (logsumexp_sum_ge_1 xs Hne); lra |].
  apply sum_map_le_count; intros a Ha.
  rewrite <- exp_0.
  destruct (max_list_ge xs a Ha) as [Hlt | Heq];
    [left; apply exp_increasing; lra | right; rewrite Heq, Rminus_diag; reflexivity].
Qed.

Lemma length_zip3 {A B C} (xs : list A) (ys : list B) (zs : list C) :
  List.length xs = List.length ys -> List.length ys = List.length zs ->
  List.length (zip3 xs ys zs) = List.length xs.
Proof.
  revert ys zs; induction xs as [| x xs IH]; intros [| y ys] [| z zs] H1 H2;
    simpl in *; try lia.
  f_equal; apply IH; lia.
Qed.


(** For well-shaped, nonempty parameters, the log-likelihood of a datum
    under the mixture is at least its log-likelihood under each single
    (weighted) component, and at most the best of them plus [ln K] for [K]
    components. *)
Theorem loglike_across_components_bounds (lw ms ss : list R) (x : R) :
  List.length lw = List.length ms -> List.length ms = List.length ss -> lw <> [] ->
  exists v,
    loglike_across_components lw ms ss x = Ok v /\
    Forall (fun '(w, mu, s) => loglike_one_component w mu s x <= v)
      (zip3 (normalize_weights lw) ms ss) /\
    v <= max_list (map (fun '(w, mu, s) => loglike_one_component w mu s x)
                     (zip3 (normalize_weights lw) ms ss))
         + ln (INR (List.length lw)).
Proof.
  intros H1 H2 Hne.
  rewrite <- length_normalize_weights in H1.
  set (comps := zip3 (normalize_weights lw) ms ss).
  set (lls := map (fun '(w, mu, s) => loglike_one_component w mu s x) comps).
  assert (Hlen : List.length lls = List.length lw).
  { unfold lls, comps; rewrite length_map, length_zip3 by assumption.
    apply length_normalize_weights. }
  assert (Hlne : lls <> []).
  { intros Hl; rewrite Hl in Hlen; destruct lw; [congruence | discriminate]. }
  exists (logsumexp lls); split; [| split].
  - unfold loglike_across_components; rewrite vmap_stack3_ok by assumption.
    reflexivity.
  - apply Forall_forall; intros [[w mu] s] Hin.
    apply logsumexp_ge; unfold lls.
    apply (in_map (fun '(w, mu, s) => loglike_one_component w mu s x) comps (w, mu, s)), Hin.
  - rewrite <- Hlen; apply logsumexp_le, Hlne.
Qed.

(** The data log-likelihood of a concatenation ([np.concatenate([draws_1,
    draws_2])]) is the sum of the two parts' log-likelihoods. *)
Theorem mixture_loglike_app (lw ms ss d1 d2 : list R) :
  mixture_loglike lw ms ss (d1 ++ d2)
  = (a <- mixture_loglike lw ms ss d1 ;;
     b <- mixture_loglike lw ms ss d2 ;;
     Ok (a + b)).
Proof.
  unfold mixture_loglike.
  destruct (vmap_stack3 (normalize_weights lw) ms ss) as [comps | e]; [| reflexivity].
  cbn [bind]; now rewrite map_app, sum_app.
Qed.

(** [loss_mixture_weights] returns a value exactly when the log-weights,
    means and log-scales have the same length, whatever the data; with the
    fixed prior no other shape error can arise. *)
Theorem loss_mixture_weights_defined (lw ms ss data : list R) :
  (exists v, loss_mixture_weights (lw, ms, ss) data = Ok v)
  <-> (List.length lw = List.length ms /\ List.length ms = List.length ss).
Proof.
  split.
  - intros [v Hv].
    destruct (Nat.eq_dec (List.length lw) (List.length ms)) as [H1 | H1],
             (Nat.eq_dec (List.length ms) (List.length ss)) as [H2 | H2];
      [split; assumption | | |];
      (assert (Hs : vmap_stack3 (normalize_weights lw) ms ss = Err vmap_sizes_msg)
         by (apply vmap_stack3_mismatch; rewrite length_normalize_weights; tauto);
       unfold loss_mixture_weights, mixture_loglike in Hv; rewrite Hs in Hv;
       discriminate Hv).
  - intros [H1 H2].
    unfold loss_mixture_weights, mixture_loglike, weights_loglike.
    rewrite vmap_stack3_ok by (rewrite ?length_normalize_weights; assumption).
    cbn [bind].
    unfold alpha_prior_fixed; rewrite length_map, H1, Nat.eqb_refl.
    eexists; reflexivity.
Qed.

(** ** The random walk: each draw is centred on the previous one *)

Section RandomWalkMore.

Variable Gen : Type.
Variable normal : R -> Gen -> R * Gen.

Lemma walk_chained (prev : R) (t : nat) (g : Gen) :
  chained Gen normal prev (fst (walk Gen normal prev t g)).
Proof.
  revert prev g; induction t as [| t IH]; intros prev g; simpl; [exact I |].
  destruct (normal prev g) as [d g1] eqn:E.
  specialize (IH d g1); destruct (walk Gen normal d t g1) as [rw g2].
  simpl in *; split; [exists g; now rewrite E | exact IH].
Qed.

Variable count : Gen -> nat.
Hypothesis count_normal : forall loc g, count (snd (normal loc g)) = S (count g).

Lemma walk_count (prev : R) (t : nat) (g : Gen) :
  count (snd (walk Gen normal prev t g)) = (count g + t)%nat.
Proof.
  revert prev g; induction t as [| t IH]; intros prev g; simpl; [lia |].
  pose proof (count_normal prev g) as Hc.
  destruct (normal prev g) as [d g1]; simpl in Hc.
  specialize (IH d g1); destruct (walk Gen normal d t g1) as [rw g2].
  simpl in *; lia.
Qed.

Lemma realizations_count (n t : nat) (g : Gen) :
  count (snd (realizations Gen normal n t g)) = (count g + n * t)%nat.
Proof.
  revert g; induction n as [| n IH]; intros g; simpl; [lia |].
  pose proof (walk_count 0 t g) as Hw.
  destruct (walk Gen normal 0 t g) as [rw g1]; simpl in Hw.
  specialize (IH g1); destruct (realizations Gen normal n t g1) as [rws g2].
  simpl in *; lia.
Qed.

End RandomWalkMore.

(** Every trajectory of [gaussian_random_walk_python] is a random walk from
    the origin: its first draw is sampled with location 0 and every later
    draw with location the draw before it. *)
Theorem gaussian_random_walk_python_chained (Gen : Type)
    (normal : R -> Gen -> R * Gen) (n t : nat) (g : Gen) :
  Forall (chained Gen normal 0) (fst (gaussian_random_walk_python Gen normal n t g)).
Proof.
  unfold gaussian_random_walk_python.
  destruct (realizations_shape Gen normal n t g) as [_ Hf].
  eapply Forall_impl; [| exact Hf].
  intros rw [g0 ->]; apply walk_chained.
Qed.

(** [gaussian_random_walk_python n T] calls [onp.random.normal] exactly
    [n * T] times: a generator that counts its draws advances by [n * T]. *)
Theorem gaussian_random_walk_python_draw_count (Gen : Type)
    (normal : R -> Gen -> R * Gen) (count : Gen -> nat) :
  (forall loc g, count (snd (normal loc g)) = S (count g)) ->
  forall n t g,
    count (snd (gaussian_random_walk_python Gen normal n t g)) = (count g + n * t)%nat.
Proof.
  intros Hc n t g; apply (realizations_count Gen normal count Hc).
Qed.

(** ** Training loops and the optimizer *)

(** The notebooks' [lax.scan] training loop ends in the same state as the
    explicit [for i in range(n)] loop that unpacks the parameters, takes the
    gradient and updates the state. *)
Theorem scan_loop_matches_python_loop (St Prm Grd : Type)
    (get_params : St -> Prm) (dloss : Prm -> Grd) (update : nat -> Grd -> St -> St)
    (state : St) (n : nat) :
  fst (run St (training_step St Prm Grd get_params dloss update) state n)
  = python_training_loop St Prm Grd get_params dloss update state n.
Proof.
  unfold run; rewrite scan_single_final.
  reflexivity.
Qed.



(** The first Adam step moves a parameter by less than [step_size], whatever
    the gradient: the bias-corrected step is [step_size * g / (|g| + eps)]. *)
Theorem adam_first_step_bounded (step_size x0 g : R) :
  0 < step_size ->
  Rabs (adam_get_params (adam_update step_size 0 g (adam_init x0)) - x0) < step_size.
Proof.
  intros Hs; unfold adam_update, adam_init, adam_get_params.
  change (0 + 1)%nat with 1%nat.
  replace (((1 - adam_b1) * g + adam_b1 * 0) / (1 - adam_b1 ^ 1)) with g
    by (unfold adam_b1; field).
  replace (((1 - adam_b2) * g ^ 2 + adam_b2 * 0) / (1 - adam_b2 ^ 1))
    with (Rabs g ^ 2) by (rewrite pow2_abs; unfold adam_b2; field).
  rewrite sqrt_pow2 by apply Rabs_pos.
  assert (He : 0 < adam_eps) by (unfold adam_eps; apply Rinv_0_lt_compat; lra).
  pose proof (Rabs_pos g) as Hg.
  replace (x0 - step_size * g / (Rabs g + adam_eps) - x0)
    with (- (step_size * g * / (Rabs g + adam_eps))) by (field; lra).
  rewrite Rabs_Ropp, !Rabs_mult, (Rabs_pos_eq step_size) by lra.
  rewrite (Rabs_pos_eq (/ (Rabs g + adam_eps)))
    by (left; apply Rinv_0_lt_compat; lra).
  replace (step_size * Rabs g * / (Rabs g + adam_eps))
    with (step_size - step_size * adam_eps * / (Rabs g + adam_eps)) by (field; lra).
  assert (0 < step_size * adam_eps * / (Rabs g + adam_eps)).
  { apply Rmult_lt_0_compat; [nra | apply Rinv_0_lt_compat; lra]. }
  lra.
Qed.

(** ** The linear model of the [stax] notebook *)

Lemma map_combine_column (f : R * list R -> R) (x w : list R) :
  (forall xi wi, f (xi, [wi]) = xi * wi) ->
  map f (combine x (map (fun wi => [wi]) w))
  = map (fun '(xi, wi) => xi * wi) (combine x w).
Proof.
  intros Hf; revert w; induction x as [| xi x IH]; intros [| wi w]; simpl; auto.
  rewrite Hf, IH; reflexivity.
Qed.

Lemma dense_apply_column (w : list R) (c : R) (x : list R) :
  dense_apply (map (fun wi => [wi]) w, [c]) x = [dot x w + c].
Proof.
  unfold dense_apply, dot; cbn [List.length seq combine map].
  rewrite (map_combine_column (fun '(xi, row) => xi * nth 0 row 0))
    by reflexivity.
  reflexivity.
Qed.

Lemma Forall2_length_refl (ys : list (list R)) :
  Forall2 (fun p y => List.length p = List.length y) ys ys.
Proof. induction ys; constructor; auto. Qed.

(** [stax.Dense(1)] with kernel [w] (one row per input) and bias [c]
    reproduces the notebook's targets [y_true = np.dot(X, w) + c]
    exactly: on any non-empty batch its mean squared error is 0. *)
Theorem dense_exact_fit (X : list (list R)) (w : list R) (c : R) :
  X <> [] ->
  mseloss (list (list R) * list R) (list R) dense_apply
    (map (fun wi => [wi]) w, [c]) X (linear_targets X w c) = Some 0.
Proof.
  intros HX; unfold mseloss.
  replace (map (dense_apply (map (fun wi => [wi]) w, [c])) X)
    with (linear_targets X w c)
    by (unfold linear_targets; apply map_ext; intros x;
        symmetry; apply dense_apply_column).
  set (Y := linear_targets X w c).
  assert (Hz : sum (sq_diffs Y Y) = 0).
  { apply (sum_nonneg_zero _ (sq_diffs_nonneg Y Y)).
    apply (sq_diffs_zero Y Y (Forall2_length_refl Y)); reflexivity. }
  destruct X as [| x X]; [congruence |].
  unfold mean; subst Y; cbn [linear_targets map] in *.
  rewrite sq_diffs_cons in *; cbn [sq_row combine map List.app] in *.
  rewrite Hz; f_equal; unfold Rdiv; ring.
Qed.

(** ** Witnesses for the further properties *)


Lemma loglike_across_components_bounds_witness :
  exists v,
    loglike_across_components [0; 1] [0; 3] [0; 0] 2 = Ok v /\
    Forall (fun '(w, mu, s) => loglike_one_component w mu s 2 <= v)
      (zip3 (normalize_weights [0; 1]) [0; 3] [0; 0]) /\
    v <= max_list (map (fun '(w, mu, s) => loglike_one_component w mu s 2)
                     (zip3 (normalize_weights [0; 1]) [0; 3] [0; 0]))
         + ln (INR (List.length [0; 1])).
Proof.
  apply (loglike_across_components_bounds [0; 1] [0; 3] [0; 0] 2);
    [reflexivity | reflexivity | discriminate].
Defined.

Lemma gaussian_random_walk_python_draw_count_witness :
  snd (gaussian_random_walk_python nat (fun loc g => (loc, S g)) 2 3 0%nat)
  = (0 + 2 * 3)%nat.
Proof.
  apply (gaussian_random_walk_python_draw_count nat (fun loc g => (loc, S g))
           (fun g => g)).
  intros; reflexivity.
Defined.


Lemma adam_first_step_bounded_witness :
  Rabs (adam_get_params (adam_update (1 / 100) 0 3 (adam_init 1)) - 1) < 1 / 100.
Proof.
  apply (adam_first_step_bounded (1 / 100) 1 3); lra.
Defined.

Lemma dense_exact_fit_witness :
  mseloss (list (list R) * list R) (list R) dense_apply
    (map (fun wi => [wi]) [1; 2; 3; 4], [5]) [[1; 0; 0; 0]; [0; 1; 1; 0]]
    (linear_targets [[1; 0; 0; 0]; [0; 1; 1; 0]] [1; 2; 3; 4] 5) = Some 0.
Proof.
  apply (dense_exact_fit [[1; 0; 0; 0]; [0; 1; 1; 0]] [1; 2; 3; 4] 5); discriminate.
Defined.
